(** * PreferencesStore: the preferences of the extension, persisted by Lens

    A shallow embedding of [PreferencesStore.js] (the [preferencesTs] typeset
    and the [PreferencesStore] class) and the properties of its load, reset,
    serialization and update-handler contract.

    Modelling choices, all taken from the source:
    - a JavaScript object is a finite map from property names to values
      ([gmap string value]); reading a missing property gives [VUndefined];
    - the objects whose identity matters (the store instance, the objects
      returned by [getDefaults] and [toJSON], the temporaries the methods
      build) live in a heap and are named by a reference; data nested inside
      a property (the JSON read from disk, the array of handlers) is a tree;
    - a function is known by its reference only; calling an update handler
      and writing to the logger are recorded, in order, in a trace (what a
      handler does once called is not part of the store);
    - a method is a computation over the world (static field, heap, trace)
      that completes normally or throws. *)

From Stdlib Require Import ZArith Ascii.
From stdpp Require Import gmap strings list fin_maps.

Set Warnings "-register-all".

(** ** Values *)

(** Reference identity of a function. *)
Abbreviation fn := nat.

Inductive value :=
| VUndefined
| VNull
| VBool (b : bool)
| VNumber (n : Z)
| VString (s : string)
| VFunction (f : fn)
| VArray (xs : list value)
| VObject (props : gmap string value).

(** JavaScript truthiness ([if (v)], [!v], [v && ...]). *)
Definition truthy (v : value) : bool :=
  match v with
  | VUndefined | VNull => false
  | VBool b => b
  | VNumber n => negb (n =? 0)%Z
  | VString s => negb (bool_decide (s = EmptyString))
  | VFunction _ | VArray _ | VObject _ => true
  end.

(** [o[key]] on a property map. *)
Definition prop (o : gmap string value) (key : string) : value :=
  default VUndefined (o !! key).

(** [v[key]] and [Object.keys(v)] on a value that is an object. The order of
    [Object.keys] is not modelled: every loop over it below writes one
    distinct property per key. *)
Definition value_prop (v : value) (key : string) : value :=
  match v with
  | VObject props => prop props key
  | _ => VUndefined
  end.

Definition keys_of (o : gmap string value) : list string := (map_to_list o).*1.

Definition value_keys (v : value) : list string :=
  match v with
  | VObject props => keys_of props
  | _ => []
  end.

(** ** World: the static field, the heap and the trace *)

(** A reference to an object of the heap. *)
Abbreviation loc := nat.

Inductive event :=
| LogError (component message : string)   (* logger.error(component, message) *)
| Invoke (h : fn).                        (* h() *)

Record world := World {
  defaultSavePath : value;                (* static PreferencesStore.defaultSavePath *)
  heap : list (gmap string value);        (* objects, by reference *)
  trace : list event                      (* oldest first *)
}.

Definition with_heap (h : list (gmap string value)) (w : world) : world :=
  World (defaultSavePath w) h (trace w).

Definition with_trace (t : list event) (w : world) : world :=
  World (defaultSavePath w) (heap w) t.

(** The module has been evaluated up to the class body: the static field is
    [null], nothing is allocated. *)
Definition boot : world := World VNull [] [].

(** The object a reference denotes, and one of its properties. *)
Definition obj_at (l : loc) (w : world) : gmap string value :=
  default ∅ (heap w !! l).

Definition read (l : loc) (key : string) (w : world) : value :=
  prop (obj_at l w) key.

(** ** Computations *)

Inductive completion (A : Type) :=
| Normal (a : A)
| Throw (e : string).
Arguments Normal {A} a.
Arguments Throw {A} e.

Definition M (A : Type) : Type := world → completion A * world.

Definition ret {A} (a : A) : M A := λ w, (Normal a, w).

Definition bind {A B} (m : M A) (k : A → M B) : M B := λ w,
  match m w with
  | (Normal a, w') => k a w'
  | (Throw e, w') => (Throw e, w')
  end.

Notation "x ←← m ; k" := (bind m (λ x, k))
  (at level 20, m at level 100, k at level 200, right associativity,
   format "x  ←←  m ;  '/' k").
Notation "m ;;; k" := (bind m (λ _, k))
  (at level 100, k at level 200, right associativity).

Definition throw {A} (e : string) : M A := λ w, (Throw e, w).

(** [l[key]] *)
Definition get (l : loc) (key : string) : M value := λ w, (Normal (read l key w), w).

(** [l[key] = v] *)
Definition set (l : loc) (key : string) (v : value) : M unit := λ w,
  (Normal tt, with_heap (alter (<[key := v]>) l (heap w)) w).

(** An object literal: a new object with a new reference. *)
Definition alloc (o : gmap string value) : M loc := λ w,
  (Normal (length (heap w)), with_heap (heap w ++ [o]) w).

(** [Object.keys(l)] *)
Definition Object_keys (l : loc) : M (list string) := λ w,
  (Normal (keys_of (obj_at l w)), w).

Definition emit (e : event) : M unit := λ w,
  (Normal tt, with_trace (trace w ++ [e]) w).

(** [xs.forEach(body)] *)
Fixpoint forEach {A} (xs : list A) (body : A → M unit) : M unit :=
  match xs with
  | [] => ret tt
  | x :: xs' => body x ;;; forEach xs' body
  end.

(** ** RTV.js: the part of the library the typeset uses

    Qualifiers (rtvjs, [qualifiers.valuePermitted]): [REQUIRED] permits
    neither [null] nor [undefined]; [EXPECTED] permits [null] but not
    [undefined], so a shape property under [EXPECTED] has to exist;
    [OPTIONAL] permits both; [TRUTHY] permits every falsy value. *)

Inductive qualifier := REQUIRED | EXPECTED | OPTIONAL | TRUTHY.

Inductive rtv_type := STRING | BOOLEAN.

(** A custom validator fails by throwing: [Some msg] is [throw new Error(msg)]. *)
Definition validator := value → option string.

Record typeset := Typeset {
  ts_qualifier : qualifier;
  ts_type : rtv_type;
  ts_validator : option validator
}.

Inductive rtv_result :=
| RtvSuccess                      (* result.valid *)
| RtvError (message : string).    (* !result.valid, result.message *)

Definition valuePermitted (v : value) (q : qualifier) : bool :=
  match q with
  | REQUIRED => false
  | EXPECTED => match v with VNull => true | _ => false end
  | OPTIONAL => match v with VNull | VUndefined => true | _ => false end
  | TRUTHY => negb (truthy v)
  end.

(** [STRING]: a string primitive, not empty under [REQUIRED]; [BOOLEAN]: a
    boolean primitive. *)
Definition isType (t : rtv_type) (q : qualifier) (v : value) : bool :=
  match t, v with
  | STRING, VString s =>
      match q with
      | REQUIRED => negb (bool_decide (s = EmptyString))
      | _ => true
      end
  | BOOLEAN, VBool _ => true
  | _, _ => false
  end.

(** One value against one typeset: qualifier and type first, then the custom
    validator when there is one. The text of rtv's messages is schematic. *)
Definition check_typeset (path : string) (ts : typeset) (v : value) : rtv_result :=
  if valuePermitted v (ts_qualifier ts) || isType (ts_type ts) (ts_qualifier ts) v then
    match ts_validator ts with
    | Some f =>
        match f v with
        | Some msg => RtvError ("Verification failed: path=" +:+ path +:+ ", rootCause=" +:+ msg)
        | None => RtvSuccess
        end
    | None => RtvSuccess
    end
  else RtvError ("Verification failed: path=" +:+ path).

(** A shape: every property the shape names is checked, in the shape's
    order, against the object's value for it ([undefined] when the object has
    no such property); properties the shape does not name are ignored. *)
Fixpoint check_shape (path : string) (shape : list (string * typeset))
    (o : gmap string value) : rtv_result :=
  match shape with
  | [] => RtvSuccess
  | (name, ts) :: shape' =>
      match check_typeset (path +:+ "/" +:+ name) ts (prop o name) with
      | RtvSuccess => check_shape path shape' o
      | RtvError msg => RtvError msg
      end
  end.

(** ** The typeset *)

(** The string matches [/\/$/]: its last character is a slash. *)
Fixpoint ends_with_slash (s : string) : bool :=
  match s with
  | EmptyString => false
  | String c EmptyString => bool_decide (c = "/"%char)
  | String _ rest => ends_with_slash rest
  end.

(** [(v) => { if (v && v.match(/\/$/)) throw new Error(...) }] *)
Definition cloudUrl_validator : validator := λ v,
  if truthy v then
    match v with
    | VString s =>
        if ends_with_slash s then Some "cloudUrl must not end with a slash" else None
    | _ => Some "TypeError: v.match is not a function"
    end
  else None.

Definition preferencesTs : list (string * typeset) :=
  [ ("cloudUrl", Typeset EXPECTED STRING (Some cloudUrl_validator));
    ("username", Typeset EXPECTED STRING None);
    ("savePath", Typeset EXPECTED STRING None);
    ("offline", Typeset EXPECTED BOOLEAN None);
    ("addToNew", Typeset EXPECTED BOOLEAN None) ].

(** [rtv.check({ store }, { store: preferencesTs })]: a nested shape is an
    object (not an array, not a primitive, not null) that has the shape. *)
Definition rtv_check (store : value) : rtv_result :=
  match store with
  | VObject props => check_shape "/store" preferencesTs props
  | _ => RtvError "Verification failed: path=/store"
  end.

(** ** The class *)

(** The keys of the object [getDefaults] returns. *)
Definition recognized : list string :=
  ["cloudUrl"; "username"; "savePath"; "offline"; "addToNew"].

Definition defaults_object (savePath : value) : gmap string value :=
  list_to_map
    [ ("cloudUrl", VNull);
      ("username", VNull);
      ("savePath", savePath);
      ("offline", VBool false);
      ("addToNew", VBool true) ].

(** [static getDefaults()] *)
Definition getDefaults : M loc := λ w,
  alloc (defaults_object (defaultSavePath w)) w.


(** The fields the class body declares: [updateHandlers = []] and the five
    observable fields, which have no initializer. *)
Definition class_fields : gmap string value :=
  list_to_map
    [ ("updateHandlers", VArray []);
      ("cloudUrl", VUndefined);
      ("username", VUndefined);
      ("savePath", VUndefined);
      ("offline", VUndefined);
      ("addToNew", VUndefined) ].

(** [constructor()]: [super({..., defaults: PreferencesStore.getDefaults()})]
    and then the class fields. [base] stands for the properties the
    constructor of [Store.ExtensionStore] leaves on the instance. *)
Definition construct (base : gmap string value) : M loc :=
  _defaults ←← getDefaults;
  alloc (class_fields ∪ base).

(** [reset()] *)
Definition reset (this : loc) : M unit :=
  defaults ←← getDefaults;
  keys ←← Object_keys this;
  forEach keys (λ key, v ←← get defaults key; set this key v).

Definition logger_error (component message : string) : M unit :=
  emit (LogError component message).

Definition dquote : string := String "034"%char EmptyString.

(** [h()] *)
Definition call (h : value) : M unit :=
  match h with
  | VFunction f => emit (Invoke f)
  | _ => throw "TypeError: h is not a function"
  end.

(** [arr.forEach(callback)] on a value. *)
Definition Array_forEach (arr : value) (callback : value → M unit) : M unit :=
  match arr with
  | VArray xs => forEach xs callback
  | VUndefined | VNull => throw "TypeError: Cannot read property 'forEach' of undefined"
  | _ => throw "TypeError: this.updateHandlers.forEach is not a function"
  end.

(** [fromStore(store)] *)
Definition fromStore (this : loc) (store : value) : M unit :=
  match rtv_check store with
  | RtvError message =>
      logger_error "PreferencesStore.fromStore()"
        ("Invalid preferences found, error=" +:+ dquote +:+ message +:+ dquote)
  | RtvSuccess =>
      forEach (value_keys store) (λ key, set this key (value_prop store key)) ;;;
      updateHandlers ←← get this "updateHandlers";
      Array_forEach updateHandlers call
  end.

(** [toJS(source, { recurseEverything: true })]: a deep copy of [source]. The
    data nested in a property has no identity of its own, so the copy is a
    new object holding the same property values. *)
Definition toJS (source : loc) : M loc := λ w,
  alloc (obj_at source w) w.

(** [toJSON()] *)
Definition toJSON (this : loc) : M loc :=
  defaults ←← getDefaults;
  keys ←← Object_keys defaults;
  obj ←← alloc ∅;
  forEach keys (λ key, v ←← get this key; set obj key v) ;;;
  toJS obj.

(** [h === handler] for a function [handler]. *)
Definition same_function (handler : fn) (h : value) : bool :=
  match h with
  | VFunction f => bool_decide (f = handler)
  | _ => false
  end.

(** [arr.find(p)]: the first element that satisfies [p], or [undefined]. *)
Definition Array_find (p : value → bool) (xs : list value) : value :=
  default VUndefined (List.find p xs).

(** [arr.findIndex(p)]: the index of that element, or [-1]. *)
Fixpoint Array_findIndex (p : value → bool) (xs : list value) : Z :=
  match xs with
  | [] => -1
  | x :: xs' =>
      if p x then 0
      else let i := Array_findIndex p xs' in
           if (i <? 0)%Z then -1 else (i + 1)
  end%Z.

Definition not_an_array {A} : M A :=
  throw "TypeError: this.updateHandlers is not an array".

(** [addUpdateHandler(handler)] *)
Definition addUpdateHandler (this : loc) (handler : fn) : M unit :=
  updateHandlers ←← get this "updateHandlers";
  match updateHandlers with
  | VArray hs =>
      if negb (truthy (Array_find (same_function handler) hs))
      then set this "updateHandlers" (VArray (hs ++ [VFunction handler]))
      else ret tt
  | _ => not_an_array
  end.

(** [removeUpdateHandler(handler)] *)
Definition removeUpdateHandler (this : loc) (handler : fn) : M unit :=
  updateHandlers ←← get this "updateHandlers";
  match updateHandlers with
  | VArray hs =>
      let idx := Array_findIndex (same_function handler) hs in
      if (idx >=? 0)%Z
      then set this "updateHandlers" (VArray (delete (Z.to_nat idx) hs))
      else ret tt
  | _ => not_an_array
  end.

(** ** Calls on the store *)

Inductive method :=
| Reset
| FromStore (store : value)
| ToJSON
| AddUpdateHandler (handler : fn)
| RemoveUpdateHandler (handler : fn)
| GetDefaults.

Definition exec (this : loc) (c : method) (w : world) : world :=
  match c with
  | Reset => (reset this w).2
  | FromStore store => (fromStore this store w).2
  | ToJSON => (toJSON this w).2
  | AddUpdateHandler h => (addUpdateHandler this h w).2
  | RemoveUpdateHandler h => (removeUpdateHandler this h w).2
  | GetDefaults => (getDefaults w).2
  end.

Definition run (this : loc) (cs : list method) (w : world) : world :=
  foldl (λ w c, exec this c w) w cs.

(** The instance exists and has the five observable fields of the class as
    own properties. *)
Definition store_at (this : loc) (w : world) : Prop :=
  ∃ o, heap w !! this = Some o ∧ ∀ key, key ∈ recognized → is_Some (o !! key).


(** What the typeset asks of each property, read off [preferencesTs]: the
    value is [null] or of the declared type, and [cloudUrl] has no trailing
    slash. *)
Definition nullable_string (v : value) : bool :=
  match v with
  | VNull | VString _ => true
  | _ => false
  end.

Definition nullable_boolean (v : value) : bool :=
  match v with
  | VNull | VBool _ => true
  | _ => false
  end.

Definition cloudUrl_ok (v : value) : bool :=
  match v with
  | VNull => true
  | VString s => negb (ends_with_slash s)
  | _ => false
  end.

Definition conformant (o : gmap string value) : bool :=
  cloudUrl_ok (prop o "cloudUrl")
  && nullable_string (prop o "username")
  && nullable_string (prop o "savePath")
  && nullable_boolean (prop o "offline")
  && nullable_boolean (prop o "addToNew").

(** ** Scenarios *)

(** The singleton: the first instance built after the module is loaded, with
    no property inherited from the base class, and the same store once Lens
    has loaded the defaults into it. *)
Definition prefStore : loc := 1.

Definition fresh_store : world := (construct ∅ boot).2.

Definition loaded_store : world :=
  exec prefStore (FromStore (VObject (defaults_object VNull))) fresh_store.

(** Scenario B of the specification, as written and with all five keys. *)
Definition scenario_B : gmap string value :=
  list_to_map
    [ ("cloudUrl", VString "https://mcc.example.com");
      ("offline", VBool true);
      ("addToNew", VBool true) ].

Definition scenario_B_full : gmap string value :=
  list_to_map
    [ ("cloudUrl", VString "https://mcc.example.com");
      ("username", VNull);
      ("savePath", VNull);
      ("offline", VBool true);
      ("addToNew", VBool true) ].

(** Scenario C: a trailing slash. *)
Definition scenario_C : gmap string value :=
  list_to_map [ ("cloudUrl", VString ("https://mcc.example.com" +:+ "/")) ].




(** A handler. *)
Definition onUpdate : fn := 7.

Definition observed_store : world :=
  exec prefStore (AddUpdateHandler onUpdate) loaded_store.



(** ** Vocabulary of the further properties *)

(** The property [key] of [o] exists and is [null] or a string, [null] or a
    boolean. *)
Definition null_or_string (o : gmap string value) (key : string) : Prop :=
  o !! key = Some VNull ∨ ∃ s, o !! key = Some (VString s).

Definition null_or_boolean (o : gmap string value) (key : string) : Prop :=
  o !! key = Some VNull ∨ ∃ b, o !! key = Some (VBool b).

(** A registry as [addUpdateHandler] builds it: an array of functions, each
    once. *)
Definition distinct_functions (v : value) : Prop :=
  ∃ hs : list fn, v = VArray (VFunction <$> hs) ∧ NoDup hs.

(** Calls that are a load, and calls that do not assign [updateHandlers]:
    all but [reset] and a load of a map that has that key. *)
Definition is_load (c : method) : bool :=
  match c with
  | FromStore _ => true
  | _ => false
  end.

Definition keeps_registry (c : method) : bool :=
  match c with
  | Reset => false
  | FromStore (VObject raw) => bool_decide (raw !! "updateHandlers" = None)
  | _ => true
  end.

(** A stored map with a key the class does not know. *)
Definition with_theme : gmap string value :=
  <["theme" := VString "dark"]> scenario_B_full.

(** What a loop of assignments [o[k] = f(k)], one per key of [ks], leaves in
    an object. *)
Definition assign_all (ks : list string) (f : string → value)
    (o : gmap string value) : gmap string value :=
  foldl (λ o k, <[k := f k]> o) o ks.

(** * Properties *)

(** Refutes [H : key ∈ keys] when [key] and the elements of [keys] are
    string literals and [key] is none of them. *)
Ltac not_in_literals H :=
  repeat (apply elem_of_cons in H as [H|H]; [discriminate H|]);
  by apply elem_of_nil in H.

(** ** Objects and loops *)

Lemma elem_of_keys_of (o : gmap string value) (k : string) :
  k ∈ keys_of o ↔ is_Some (o !! k).
Proof.
  unfold keys_of. rewrite list_elem_of_fmap. split.
  - intros [[k' v] [-> Hin]]. apply elem_of_map_to_list in Hin. eauto.
  - intros [v Hv]. exists (k, v). split; [done|]. by apply elem_of_map_to_list.
Qed.

Lemma lookup_assign_all ks f (o : gmap string value) (k : string) :
  assign_all ks f o !! k = if decide (k ∈ ks) then Some (f k) else o !! k.
Proof.
  unfold assign_all. revert o. induction ks as [|a ks IH]; intros o.
  - destruct (decide (k ∈ [])) as [H|_]; [by apply elem_of_nil in H | done].
  - cbn [foldl]. rewrite IH. destruct (decide (k ∈ ks)) as [Hin|Hnin].
    + rewrite decide_True; [done | by right].
    + destruct (decide (k = a)) as [->|Hne].
      * rewrite lookup_insert_eq. rewrite decide_True; [done | by left].
      * rewrite lookup_insert_ne by done.
        rewrite decide_False; [done|]. rewrite elem_of_cons. by intros [?|?].
Qed.

Lemma assign_all_ext ks f g (o : gmap string value) :
  (∀ k, k ∈ ks → f k = g k) → assign_all ks f o = assign_all ks g o.
Proof.
  intros H. apply map_eq. intros k. rewrite !lookup_assign_all.
  case_decide; [by rewrite H | done].
Qed.

Lemma assign_all_keys_union (raw o : gmap string value) :
  assign_all (keys_of raw) (prop raw) o = raw ∪ o.
Proof.
  apply map_eq. intros k. rewrite lookup_assign_all.
  case_decide as Hk.
  - apply elem_of_keys_of in Hk as [v Hv]. unfold prop. rewrite Hv. simpl.
    symmetry. by apply lookup_union_Some_l.
  - rewrite elem_of_keys_of in Hk. rewrite <- eq_None_not_Some in Hk.
    symmetry. by apply lookup_union_r.
Qed.

Lemma dom_assign_all ks f (o : gmap string value) :
  dom (assign_all ks f o) = list_to_set ks ∪ dom o.
Proof.
  apply set_eq. intros k.
  rewrite elem_of_dom, lookup_assign_all, elem_of_union, elem_of_list_to_set, elem_of_dom.
  case_decide as Hk; split; eauto. by intros [?|?].
Qed.

Lemma alter_as_insert {A} (f : A → A) (l : list A) (i : nat) (x : A) :
  l !! i = Some x → alter f i l = <[i := f x]> l.
Proof.
  intros H. apply list_eq. intros j. destruct (decide (i = j)) as [<-|Hne].
  - rewrite list_lookup_alter_eq, H. simpl.
    rewrite list_lookup_insert_eq; [done | by eapply lookup_lt_Some].
  - by rewrite list_lookup_alter_ne, list_lookup_insert_ne.
Qed.

Lemma alter_snoc {A} (f : A → A) (l : list A) (x : A) :
  alter f (length l) (l ++ [x]) = l ++ [f x].
Proof. induction l as [|y l IH]; simpl; [done | by f_equal]. Qed.

Lemma with_heap_with_heap h1 h2 w : with_heap h1 (with_heap h2 w) = with_heap h1 w.
Proof. done. Qed.

Lemma with_heap_id w : with_heap (heap w) w = w.
Proof. by destruct w. Qed.

(** A loop [ks.forEach(key => dst[key] = f(key))]. *)
Lemma forEach_assign (dst : loc) (f : string → value) ks w :
  forEach ks (λ key, set dst key (f key)) w
  = (Normal tt, with_heap (alter (assign_all ks f) dst (heap w)) w).
Proof.
  revert w. induction ks as [|a ks IH]; intros w; simpl.
  - unfold ret. f_equal. rewrite list_alter_id by done. by rewrite with_heap_id.
  - unfold bind, set at 1. rewrite IH. simpl. f_equal.
    rewrite with_heap_with_heap. f_equal.
    by rewrite list_alter_alter_eq.
Qed.

(** A loop [ks.forEach(key => dst[key] = src[key])] between two objects. *)
Lemma forEach_copy (src dst : loc) ks w :
  src ≠ dst →
  forEach ks (λ key, v ←← get src key; set dst key v) w
  = (Normal tt, with_heap (alter (assign_all ks (λ k, read src k w)) dst (heap w)) w).
Proof.
  intros Hne. revert w. induction ks as [|a ks IH]; intros w; simpl.
  - unfold ret. f_equal. rewrite list_alter_id by done. by rewrite with_heap_id.
  - unfold bind at 1. unfold bind at 1. unfold get at 1. unfold set at 1.
    rewrite IH. simpl. f_equal. rewrite with_heap_with_heap. f_equal.
    rewrite list_alter_alter_eq. apply list_alter_ext; [|done].
    intros o _. simpl. unfold assign_all at 2. simpl.
    apply assign_all_ext. intros k _.
    unfold read, obj_at. simpl. by rewrite list_lookup_alter_ne.
Qed.

(** ** What each method does to the world *)

Lemma bind_normal {A B} (m : M A) (k : A → M B) w a w' :
  m w = (Normal a, w') → bind m k w = k a w'.
Proof. intros H. unfold bind. by rewrite H. Qed.

Lemma getDefaults_run w :
  getDefaults w
  = (Normal (length (heap w)),
     with_heap (heap w ++ [defaults_object (defaultSavePath w)]) w).
Proof. done. Qed.

Lemma read_alloc (l : loc) key h' w :
  l < length (heap w) → read l key (with_heap (heap w ++ h') w) = read l key w.
Proof. intros Hl. unfold read, obj_at. simpl. by rewrite lookup_app_l. Qed.

Lemma read_fresh key o w :
  read (length (heap w)) key (with_heap (heap w ++ [o]) w) = prop o key.
Proof. unfold read, obj_at. simpl. by rewrite list_lookup_middle. Qed.

Lemma reset_run this w o :
  heap w !! this = Some o →
  let D := defaults_object (defaultSavePath w) in
  reset this w
  = (Normal tt,
     with_heap (<[this := assign_all (keys_of o) (prop D) o]> (heap w) ++ [D]) w).
Proof.
  intros Ho D. pose proof (lookup_lt_Some _ _ _ Ho) as Hlt.
  unfold reset. erewrite bind_normal by apply getDefaults_run. fold D.
  erewrite bind_normal by reflexivity.
  unfold obj_at at 1. simpl.
  rewrite (lookup_app_l_Some _ _ _ _ Ho). simpl.
  rewrite forEach_copy by lia. simpl. f_equal. unfold with_heap. simpl. f_equal.
  rewrite (alter_as_insert _ _ _ o) by by apply lookup_app_l_Some.
  rewrite insert_app_l by done. do 2 f_equal.
  apply assign_all_ext. intros k _. apply (read_fresh k D w).
Qed.

Lemma toJSON_run this w :
  this < length (heap w) →
  let D := defaults_object (defaultSavePath w) in
  let snap := assign_all (keys_of D) (λ k, read this k w) ∅ in
  toJSON this w
  = (Normal (length (heap w) + 2), with_heap (heap w ++ [D; snap; snap]) w).
Proof.
  intros Hlt D snap. unfold toJSON.
  erewrite bind_normal by apply getDefaults_run. fold D.
  erewrite bind_normal by reflexivity.
  unfold obj_at at 1. simpl.
  rewrite list_lookup_middle by done. simpl.
  erewrite bind_normal by reflexivity.
  erewrite bind_normal
    by (apply forEach_copy; simpl; rewrite length_app; simpl; lia).
  unfold toJS, alloc, obj_at. simpl.
  rewrite alter_snoc, list_lookup_middle by done. simpl.
  set (snap' := assign_all (keys_of D) _ ∅).
  assert (snap' = snap) as ->.
  { apply assign_all_ext. intros k _.
    unfold read, obj_at. simpl. by rewrite !lookup_app_l by (rewrite ?length_app; lia). }
  f_equal.
  - f_equal. rewrite !length_app. simpl. lia.
  - unfold with_heap. simpl. f_equal. by rewrite <- !app_assoc.
Qed.

Lemma forEach_call_functions (hs : list fn) w :
  forEach (VFunction <$> hs) call w
  = (Normal tt, with_trace (trace w ++ (Invoke <$> hs)) w).
Proof.
  revert w. induction hs as [|h hs IH]; intros w; simpl.
  - unfold ret, with_trace. rewrite app_nil_r. by destruct w.
  - unfold bind, emit at 1. rewrite IH. unfold with_trace. simpl.
    by rewrite <- app_assoc.
Qed.

Lemma forEach_call_trace (xs : list value) w :
  ∃ c t, forEach xs call w = (c, with_trace (trace w ++ t) w).
Proof.
  revert w. induction xs as [|x xs IH]; intros w; simpl.
  - exists (Normal tt), []. unfold ret, with_trace. rewrite app_nil_r. by destruct w.
  - unfold bind. destruct x; simpl;
      try (eexists (Throw _), []; unfold throw, with_trace;
           rewrite app_nil_r; by destruct w).
    destruct (IH (with_trace (trace w ++ [Invoke f]) w)) as (c & t & ->).
    exists c, (Invoke f :: t). unfold with_trace. simpl.
    by rewrite <- app_assoc.
Qed.

Lemma Array_forEach_call_trace (v : value) w :
  ∃ c t, Array_forEach v call w = (c, with_trace (trace w ++ t) w).
Proof.
  destruct v; simpl; try apply forEach_call_trace;
    eexists (Throw _), []; unfold throw, with_trace;
    rewrite app_nil_r; by destruct w.
Qed.

(** A store the schema rejects: one diagnostic, nothing else. *)
Lemma fromStore_invalid this store message w :
  rtv_check store = RtvError message →
  fromStore this store w
  = (Normal tt,
     with_trace (trace w ++ [LogError "PreferencesStore.fromStore()"
       ("Invalid preferences found, error=" +:+ dquote +:+ message +:+ dquote)]) w).
Proof. intros H. unfold fromStore. by rewrite H. Qed.

(** A store the schema accepts: every key of the store is written on the
    instance, then the handlers run. *)
Lemma fromStore_valid this raw w :
  rtv_check (VObject raw) = RtvSuccess →
  let w1 := with_heap (alter (raw ∪.) this (heap w)) w in
  fromStore this (VObject raw) w
  = Array_forEach (read this "updateHandlers" w1) call w1.
Proof.
  intros H w1. unfold fromStore. rewrite H.
  simpl value_keys. unfold value_prop.
  erewrite bind_normal by apply forEach_assign.
  erewrite bind_normal by reflexivity. simpl.
  replace (alter (assign_all (keys_of raw) (prop raw)) this (heap w))
    with (alter (raw ∪.) this (heap w)); [done|].
  apply list_alter_ext; [|done]. intros o _. by rewrite assign_all_keys_union.
Qed.

Lemma fromStore_valid_heap this raw w :
  rtv_check (VObject raw) = RtvSuccess →
  heap (fromStore this (VObject raw) w).2 = alter (raw ∪.) this (heap w).
Proof.
  intros H. rewrite fromStore_valid by done.
  edestruct Array_forEach_call_trace as (c & t & ->). done.
Qed.

Lemma with_heap_alter_id this w : with_heap (alter id this (heap w)) w = w.
Proof. rewrite list_alter_id by done. apply with_heap_id. Qed.

Lemma addUpdateHandler_run this h hs w :
  read this "updateHandlers" w = VArray hs →
  addUpdateHandler this h w
  = (Normal tt,
     if negb (truthy (Array_find (same_function h) hs))
     then with_heap (alter (<["updateHandlers" := VArray (hs ++ [VFunction h])]>)
                       this (heap w)) w
     else w).
Proof.
  intros H. unfold addUpdateHandler. erewrite bind_normal by reflexivity.
  rewrite H. by destruct (negb _).
Qed.

Lemma removeUpdateHandler_run this h hs w :
  read this "updateHandlers" w = VArray hs →
  let idx := Array_findIndex (same_function h) hs in
  removeUpdateHandler this h w
  = (Normal tt,
     if (idx >=? 0)%Z
     then with_heap (alter (<["updateHandlers" := VArray (delete (Z.to_nat idx) hs)]>)
                       this (heap w)) w
     else w).
Proof.
  intros H idx. unfold removeUpdateHandler. erewrite bind_normal by reflexivity.
  rewrite H. fold idx. by destruct (idx >=? 0)%Z.
Qed.

(** Every call on the store rewrites the instance in place, keeping its
    properties, allocates behind the objects that exist, extends the trace
    and leaves the static field alone. *)
Lemma exec_shape this c w :
  this < length (heap w) →
  ∃ f extra t,
    exec this c w
    = World (defaultSavePath w) (alter f this (heap w) ++ extra) (trace w ++ t)
    ∧ ∀ o : gmap string value, dom o ⊆ dom (f o).
Proof.
  intros Hlt. destruct (lookup_lt_is_Some_2 _ _ Hlt) as [o Ho].
  destruct c as [|store| |h|h|]; simpl.
  - (* reset *)
    rewrite (reset_run _ _ _ Ho). simpl.
    exists (λ o, assign_all (keys_of o) (prop (defaults_object (defaultSavePath w))) o),
      [defaults_object (defaultSavePath w)], [].
    split.
    + unfold with_heap. rewrite app_nil_r. by rewrite (alter_as_insert _ _ _ _ Ho).
    + intros o'. rewrite dom_assign_all. set_solver.
  - (* fromStore *)
    destruct (rtv_check store) as [|message] eqn:Hcheck.
    + destruct store; try discriminate Hcheck.
      rewrite fromStore_valid by done.
      edestruct Array_forEach_call_trace as (c & t & ->). simpl.
      exists (props ∪.), [], t. rewrite app_nil_r. split; [done|].
      intros o'. rewrite dom_union. set_solver.
    + rewrite (fromStore_invalid _ _ _ _ Hcheck). simpl.
      eexists id, [], [_]. rewrite app_nil_r, list_alter_id by done.
      split; [reflexivity | done].
  - (* toJSON *)
    rewrite toJSON_run by done. simpl.
    eexists id, [_; _; _], []. rewrite (app_nil_r (trace w)), list_alter_id by done.
    split; [reflexivity | done].
  - (* addUpdateHandler *)
    unfold addUpdateHandler. erewrite bind_normal by reflexivity.
    destruct (read this "updateHandlers" w) as [| | | | | |hs|] eqn:Hr;
      try (exists id, [], []; rewrite !app_nil_r, list_alter_id by done;
           split; [by destruct w | done]).
    destruct (negb _); simpl.
    + eexists _, [], []. rewrite !app_nil_r. split; [done|].
      intros o'. rewrite dom_insert. set_solver.
    + exists id, [], []. rewrite !app_nil_r, list_alter_id by done.
      split; [by destruct w | done].
  - (* removeUpdateHandler *)
    unfold removeUpdateHandler. erewrite bind_normal by reflexivity.
    destruct (read this "updateHandlers" w) as [| | | | | |hs|] eqn:Hr;
      try (exists id, [], []; rewrite !app_nil_r, list_alter_id by done;
           split; [by destruct w | done]).
    destruct (_ >=? _)%Z; simpl.
    + eexists _, [], []. rewrite !app_nil_r. split; [done|].
      intros o'. rewrite dom_insert. set_solver.
    + exists id, [], []. rewrite !app_nil_r, list_alter_id by done.
      split; [by destruct w | done].
  - (* getDefaults *)
    eexists id, [_], []. rewrite (app_nil_r (trace w)), list_alter_id by done.
    split; [reflexivity | done].
Qed.


Lemma exec_length this c w :
  this < length (heap w) → length (heap w) ≤ length (heap (exec this c w)).
Proof.
  intros H. destruct (exec_shape this c w H) as (f & extra & t & -> & _).
  simpl. rewrite length_app, length_alter. lia.
Qed.


Lemma store_at_lt this w : store_at this w → this < length (heap w).
Proof. intros (o & Ho & _). by eapply lookup_lt_Some. Qed.

(** The instance keeps its declared fields through every call. *)
Lemma exec_store_at this c w : store_at this w → store_at this (exec this c w).
Proof.
  intros Hs. pose proof (store_at_lt _ _ Hs) as Hlt.
  destruct Hs as (o & Ho & Hkeys).
  destruct (exec_shape this c w Hlt) as (f & extra & t & -> & Hdom).
  exists (f o). split.
  - cbn [heap]. rewrite lookup_app_l by by rewrite length_alter.
    rewrite list_lookup_alter_eq. by rewrite Ho.
  - intros key Hk. apply elem_of_dom, Hdom, elem_of_dom. by apply Hkeys.
Qed.




(** The constructor leaves an instance with its declared fields. *)
Lemma construct_run base w :
  construct base w
  = (Normal (length (heap w) + 1),
     with_heap (heap w ++ [defaults_object (defaultSavePath w); class_fields ∪ base]) w).
Proof.
  unfold construct. erewrite bind_normal by apply getDefaults_run.
  unfold alloc, with_heap. simpl. rewrite length_app, <- app_assoc. done.
Qed.

Lemma construct_store_at base w :
  store_at (length (heap w) + 1) (construct base w).2.
Proof.
  rewrite construct_run. simpl. exists (class_fields ∪ base). split.
  - cbn [heap with_heap]. rewrite lookup_app_r by lia.
    by replace (length (heap w) + 1 - length (heap w)) with 1 by lia.
  - intros key Hk. apply elem_of_dom. rewrite dom_union. apply elem_of_union_l.
    apply elem_of_dom. unfold recognized in Hk.
    repeat (apply elem_of_cons in Hk as [->|Hk]; [by eexists|]).
    by apply elem_of_nil in Hk.
Qed.

(** ** The schema *)

Lemma ends_with_slash_app (t : string) : ends_with_slash (t +:+ "/") = true.
Proof.
  induction t as [|c t IH]; [done|].
  change (String c t +:+ "/") with (String c (t +:+ "/")).
  cbn [ends_with_slash]. destruct (t +:+ "/") eqn:E; [by destruct t | done].
Qed.

Lemma app_slash_nonempty (t : string) : t +:+ "/" ≠ EmptyString.
Proof. by destruct t. Qed.

Lemma check_typeset_plain path q t v :
  check_typeset path (Typeset q t None) v = RtvSuccess
  ↔ valuePermitted v q || isType t q v = true.
Proof. unfold check_typeset. simpl. by destruct (_ || _). Qed.

(** The schema accepts exactly the maps in which each of the five properties
    is [null] or of its type, and [cloudUrl] has no trailing slash. *)
Lemma rtv_check_conformant (raw : gmap string value) :
  rtv_check (VObject raw) = RtvSuccess ↔ conformant raw = true.
Proof.
  unfold rtv_check, conformant, preferencesTs, check_shape, check_typeset.
  cbn [ts_qualifier ts_type ts_validator valuePermitted isType].
  destruct (prop raw "cloudUrl") as [| | | |s| | |]; simpl; try (split; discriminate).
  - destruct (prop raw "username"), (prop raw "savePath"),
      (prop raw "offline"), (prop raw "addToNew"); simpl; split; (done || discriminate).
  - unfold cloudUrl_validator, truthy.
    destruct (bool_decide (s = EmptyString)) eqn:Hs; simpl.
    + apply bool_decide_eq_true in Hs as ->. simpl.
      destruct (prop raw "username"), (prop raw "savePath"),
        (prop raw "offline"), (prop raw "addToNew"); simpl; split; (done || discriminate).
    + destruct (ends_with_slash s); simpl; [split; discriminate|].
      destruct (prop raw "username"), (prop raw "savePath"),
        (prop raw "offline"), (prop raw "addToNew"); simpl; split; (done || discriminate).
Qed.

Example rtv_check_scenario_B_full : rtv_check (VObject scenario_B_full) = RtvSuccess.
Proof. reflexivity. Qed.

Example rtv_check_scenario_B :
  rtv_check (VObject scenario_B) = RtvError "Verification failed: path=/store/username".
Proof. reflexivity. Qed.

Example rtv_check_scenario_C :
  rtv_check (VObject scenario_C)
  = RtvError
      "Verification failed: path=/store/cloudUrl, rootCause=cloudUrl must not end with a slash".
Proof. reflexivity. Qed.

Example rtv_check_array : rtv_check (VArray []) = RtvError "Verification failed: path=/store".
Proof. reflexivity. Qed.

Lemma rtv_check_not_conformant (raw : gmap string value) :
  conformant raw = false → ∃ message, rtv_check (VObject raw) = RtvError message.
Proof.
  intros H. destruct (rtv_check (VObject raw)) as [|message] eqn:E; [|by eauto].
  apply rtv_check_conformant in E. congruence.
Qed.

(** A map the schema accepts has all five recognized keys. *)
Lemma conformant_recognized (raw : gmap string value) (key : string) :
  conformant raw = true → key ∈ recognized → is_Some (raw !! key).
Proof.
  unfold conformant, recognized, prop. intros H Hk.
  repeat (apply andb_prop in H as [H ?]).
  repeat (apply elem_of_cons in Hk as [->|Hk];
    [match goal with
     | |- is_Some (raw !! ?k) =>
         destruct (raw !! k) eqn:E; [by eauto | simpl in *; congruence]
     end|]).
  by apply elem_of_nil in Hk.
Qed.

(** ** Loading *)

Lemma fromStore_valid_obj this (raw o : gmap string value) w :
  heap w !! this = Some o →
  rtv_check (VObject raw) = RtvSuccess →
  heap (fromStore this (VObject raw) w).2 !! this = Some (raw ∪ o).
Proof.
  intros Ho Hv. rewrite fromStore_valid_heap by done.
  rewrite list_lookup_alter_eq. by rewrite Ho.
Qed.

Lemma read_loaded this (raw o : gmap string value) w key :
  heap w !! this = Some o →
  rtv_check (VObject raw) = RtvSuccess →
  read this key (fromStore this (VObject raw) w).2 = prop (raw ∪ o) key.
Proof.
  intros Ho Hv. unfold read, obj_at.
  by rewrite (fromStore_valid_obj _ _ _ _ Ho Hv).
Qed.




(** C2. A map whose [cloudUrl] is a string ending in a slash: [fromStore]
    returns after one [logger.error], the heap (so every live field) is as
    before and no handler is invoked. The empty string does not end in a
    slash: with it, the schema's verdict depends on the other four
    properties only. *)
Theorem C2_trailing_slash_is_rejected this (raw : gmap string value) (t : string) w :
  raw !! "cloudUrl" = Some (VString (t +:+ "/")) →
  let w' := (fromStore this (VObject raw) w).2 in
  (∃ message,
     fromStore this (VObject raw) w
     = (Normal tt,
        with_trace (trace w ++ [LogError "PreferencesStore.fromStore()" message]) w))
  ∧ heap w' = heap w
  ∧ (∀ l key, read l key w' = read l key w)
  ∧ (∀ h, Invoke h ∈ trace w' → Invoke h ∈ trace w)
  ∧ ends_with_slash EmptyString = false
  ∧ (∀ raw' : gmap string value,
       raw' !! "cloudUrl" = Some (VString EmptyString) →
       rtv_check (VObject raw') = RtvSuccess
       ↔ nullable_string (prop raw' "username")
         && nullable_string (prop raw' "savePath")
         && nullable_boolean (prop raw' "offline")
         && nullable_boolean (prop raw' "addToNew") = true).
Proof.
  intros Hurl w'.
  assert (conformant raw = false) as Hc.
  { unfold conformant, prop. rewrite Hurl. simpl. by rewrite ends_with_slash_app. }
  destruct (rtv_check_not_conformant _ Hc) as [message Hm].
  assert (fromStore this (VObject raw) w
          = (Normal tt, with_trace (trace w ++ [LogError "PreferencesStore.fromStore()"
               ("Invalid preferences found, error=" +:+ dquote +:+ message +:+ dquote)]) w))
    as Hrun by by apply fromStore_invalid.
  unfold w'. rewrite Hrun. simpl.
  split; [by eexists|]. split; [done|]. split; [done|].
  split.
  { intros h Hin. apply elem_of_app in Hin as [Hin|Hin]; [done|].
    apply list_elem_of_singleton in Hin. discriminate Hin. }
  split; [done|].
  intros raw' Hempty. etrans; [apply rtv_check_conformant|].
  unfold conformant, prop at 1. by rewrite Hempty.
Qed.

Lemma C2_trailing_slash_is_rejected_witness :
  heap (fromStore prefStore (VObject scenario_C) loaded_store).2 = heap loaded_store.
Proof.
  refine (proj1 (proj2 (C2_trailing_slash_is_rejected prefStore scenario_C
            "https://mcc.example.com" loaded_store _))).
  vm_compute. reflexivity.
Defined.







(** ** Reset *)


(** C4, on the code: [reset] runs over every own property of the instance,
    so it assigns [undefined] to [updateHandlers]; the [fromStore] that
    follows copies the map and then throws on [this.updateHandlers.forEach],
    and the handler registered before the reset is never invoked. *)
Theorem C4_reset_clears_updateHandlers :
  let w1 := observed_store in
  let w2 := (reset prefStore w1).2 in
  let r := fromStore prefStore (VObject scenario_B_full) w2 in
  read prefStore "updateHandlers" w1 = VArray [VFunction onUpdate]
  ∧ trace w2 = trace w1
  ∧ read prefStore "updateHandlers" w2 = VUndefined
  ∧ r.1 = Throw "TypeError: Cannot read property 'forEach' of undefined"
  ∧ trace r.2 = [].
Proof. vm_compute. repeat split. Qed.

(** ** Defaults and snapshots *)


Lemma dom_defaults_object v :
  dom (defaults_object v) =@{gset string} list_to_set recognized.
Proof.
  unfold defaults_object, recognized. simpl.
  rewrite !dom_insert_L, dom_empty_L. done.
Qed.

Lemma keys_defaults_object v (k : string) :
  k ∈ keys_of (defaults_object v) ↔ k ∈ recognized.
Proof.
  rewrite elem_of_keys_of, <- elem_of_dom, dom_defaults_object.
  by rewrite elem_of_list_to_set.
Qed.


(** C9. [getDefaults] takes no instance: in every world, also right after
    the module is loaded when no object exists, it returns a reference that
    denoted nothing before, to an object with exactly the five keys,
    [cloudUrl] and [username] null, [savePath] the static
    [defaultSavePath] (null until it is assigned), [offline] false and
    [addToNew] true; two calls return two references. *)
Theorem C9_getDefaults_returns_fresh_defaults w :
  ∃ l w',
    getDefaults w = (Normal l, w')
    ∧ heap w !! l = None
    ∧ (∀ l', l' ≠ l → heap w' !! l' = heap w !! l')
    ∧ dom (obj_at l w') = list_to_set recognized
    ∧ read l "cloudUrl" w' = VNull
    ∧ read l "username" w' = VNull
    ∧ read l "savePath" w' = defaultSavePath w
    ∧ read l "offline" w' = VBool false
    ∧ read l "addToNew" w' = VBool true
    ∧ (getDefaults w').1 ≠ Normal l
    ∧ heap boot = []
    ∧ read 0 "savePath" (getDefaults boot).2 = VNull.
Proof.
  eexists _, _. split; [apply getDefaults_run|].
  assert (obj_at (length (heap w))
            (with_heap (heap w ++ [defaults_object (defaultSavePath w)]) w)
          = defaults_object (defaultSavePath w)) as Hobj.
  { unfold obj_at. simpl. by rewrite list_lookup_middle. }
  unfold read. rewrite Hobj.
  split; [by apply lookup_ge_None|].
  split.
  { intros l' Hne. simpl. destruct (decide (l' < length (heap w))) as [Hlt|Hge].
    - by rewrite lookup_app_l.
    - rewrite !lookup_ge_None_2; [done | lia | rewrite length_app; simpl; lia]. }
  split; [apply dom_defaults_object|].
  do 5 (split; [reflexivity|]).
  split; [|done].
  rewrite getDefaults_run. simpl. rewrite length_app. simpl.
  intros [= H]. lia.
Qed.







(** ** Update handlers *)

Lemma Array_find_same_function (h : fn) (hs : list fn) :
  truthy (Array_find (same_function h) (VFunction <$> hs)) = bool_decide (h ∈ hs).
Proof.
  unfold Array_find. induction hs as [|a hs IH]; [done|].
  cbn [fmap list_fmap List.find same_function].
  destruct (bool_decide (a = h)) eqn:E.
  - apply bool_decide_eq_true in E as ->. simpl. symmetry.
    apply bool_decide_eq_true. by left.
  - rewrite IH. apply bool_decide_eq_false in E.
    apply bool_decide_ext. rewrite elem_of_cons.
    split; [by right | by intros [->|?]].
Qed.

Lemma read_set this key v w :
  this < length (heap w) →
  read this key (with_heap (alter (<[key := v]>) this (heap w)) w) = v.
Proof.
  intros Hlt. destruct (lookup_lt_is_Some_2 _ _ Hlt) as [o Ho].
  unfold read, obj_at, prop. simpl.
  rewrite list_lookup_alter_eq. rewrite Ho. simpl. by rewrite lookup_insert_eq.
Qed.

(** Registering [h] on a registry of functions: nothing when [h] is there,
    [h] pushed at the end otherwise. *)
Lemma exec_add this (h : fn) (hs : list fn) w :
  read this "updateHandlers" w = VArray (VFunction <$> hs) →
  exec this (AddUpdateHandler h) w
  = if decide (h ∈ hs) then w
    else with_heap (alter (<["updateHandlers" := VArray (VFunction <$> (hs ++ [h]))]>)
                      this (heap w)) w.
Proof.
  intros Hr. simpl. rewrite (addUpdateHandler_run _ _ _ _ Hr).
  rewrite Array_find_same_function. simpl.
  destruct (decide (h ∈ hs)) as [Hin|Hnin].
  - by rewrite bool_decide_true.
  - rewrite bool_decide_false by done. simpl. by rewrite fmap_app.
Qed.

Lemma registry_add this (h : fn) (hs : list fn) w :
  this < length (heap w) →
  read this "updateHandlers" w = VArray (VFunction <$> hs) →
  let w' := exec this (AddUpdateHandler h) w in
  read this "updateHandlers" w'
  = VArray (VFunction <$> (if decide (h ∈ hs) then hs else hs ++ [h]))
  ∧ this < length (heap w')
  ∧ trace w' = trace w.
Proof.
  intros Hlt Hr w'. unfold w'. rewrite (exec_add _ _ _ _ Hr).
  destruct (decide (h ∈ hs)); [done|].
  split; [by apply read_set|]. simpl. by rewrite length_alter.
Qed.


(** A successful load calls the registered functions, first to last. *)
Lemma fromStore_notifies this (raw : gmap string value) (hs : list fn) w :
  this < length (heap w) →
  read this "updateHandlers" w = VArray (VFunction <$> hs) →
  rtv_check (VObject raw) = RtvSuccess →
  raw !! "updateHandlers" = None →
  fromStore this (VObject raw) w
  = (Normal tt,
     World (defaultSavePath w) (alter (raw ∪.) this (heap w))
       (trace w ++ (Invoke <$> hs))).
Proof.
  intros Hlt Hr Hv Hraw. rewrite fromStore_valid by done.
  destruct (lookup_lt_is_Some_2 _ _ Hlt) as [o Ho].
  assert (read this "updateHandlers" (with_heap (alter (raw ∪.) this (heap w)) w)
          = VArray (VFunction <$> hs)) as ->.
  { rewrite <- Hr. unfold read, obj_at, prop. simpl.
    rewrite list_lookup_alter_eq. rewrite Ho. simpl. by rewrite lookup_union_r. }
  simpl. by rewrite forEach_call_functions.
Qed.




(** * Further properties of the schema and the store *)

(** ** The schema *)

Lemma ends_with_slash_inv (s : string) :
  ends_with_slash s = true → ∃ t, s = t +:+ "/".
Proof.
  induction s as [|c s IH]; [done|]. cbn [ends_with_slash].
  destruct s as [|c' s'].
  - intros Hc. apply bool_decide_eq_true in Hc as ->. by exists EmptyString.
  - intros Hs. destruct (IH Hs) as [t Ht]. exists (String c t).
    change (String c t +:+ "/") with (String c (t +:+ "/")). by rewrite <- Ht.
Qed.

Lemma nullable_string_prop (o : gmap string value) key :
  nullable_string (prop o key) = true ↔ null_or_string o key.
Proof.
  unfold prop, null_or_string. destruct (o !! key) as [v|]; simpl.
  - destruct v; simpl; split; try discriminate; eauto;
      intros [H|[x H]]; discriminate H.
  - split; [discriminate | intros [H|[s H]]; discriminate H].
Qed.

Lemma nullable_boolean_prop (o : gmap string value) key :
  nullable_boolean (prop o key) = true ↔ null_or_boolean o key.
Proof.
  unfold prop, null_or_boolean. destruct (o !! key) as [v|]; simpl.
  - destruct v; simpl; split; try discriminate; eauto;
      intros [H|[x H]]; discriminate H.
  - split; [discriminate | intros [H|[s H]]; discriminate H].
Qed.

Lemma cloudUrl_ok_prop (o : gmap string value) :
  cloudUrl_ok (prop o "cloudUrl") = true
  ↔ null_or_string o "cloudUrl" ∧ ∀ t, o !! "cloudUrl" ≠ Some (VString (t +:+ "/")).
Proof.
  unfold prop, null_or_string. destruct (o !! "cloudUrl") as [v|]; simpl.
  - destruct v; simpl;
      try (split; [discriminate | intros [[H|[s' H]] _]; discriminate H]).
    + split; [|done]. intros _. split; [by left | discriminate].
    + split.
      * intros Hs. apply negb_true_iff in Hs. split; [by eauto|].
        intros t [= ->]. by rewrite ends_with_slash_app in Hs.
      * intros [_ Hno]. apply negb_true_iff.
        destruct (ends_with_slash s) eqn:Hs; [|done].
        destruct (ends_with_slash_inv _ Hs) as [t ->]. by destruct (Hno t).
  - split; [discriminate | intros [[H|[s H]] _]; discriminate H].
Qed.

(** X1. The schema accepts exactly the maps that hold all five recognized
    keys, [cloudUrl], [username] and [savePath] each null or a string,
    [offline] and [addToNew] each null or a boolean, with no slash at the end
    of [cloudUrl]. *)
Theorem X1_schema_accepts_exactly (raw : gmap string value) :
  rtv_check (VObject raw) = RtvSuccess
  ↔ null_or_string raw "cloudUrl"
    ∧ (∀ t, raw !! "cloudUrl" ≠ Some (VString (t +:+ "/")))
    ∧ null_or_string raw "username"
    ∧ null_or_string raw "savePath"
    ∧ null_or_boolean raw "offline"
    ∧ null_or_boolean raw "addToNew".
Proof.
  rewrite rtv_check_conformant. unfold conformant.
  rewrite !andb_true_iff, cloudUrl_ok_prop, !nullable_string_prop,
    !nullable_boolean_prop. tauto.
Qed.

Lemma prop_insert_ne (o : gmap string value) key name v :
  key ≠ name → prop (<[key := v]> o) name = prop o name.
Proof. intros Hne. unfold prop. by rewrite lookup_insert_ne. Qed.

Lemma conformant_ext (a b : gmap string value) :
  (∀ name, name ∈ recognized → prop a name = prop b name) →
  conformant a = conformant b.
Proof.
  intros H. unfold conformant.
  rewrite !H; [done | | | | |]; unfold recognized; set_solver.
Qed.

Lemma rtv_check_ext (a b : gmap string value) :
  (∀ name, name ∈ recognized → prop a name = prop b name) →
  rtv_check (VObject a) = rtv_check (VObject b).
Proof.
  intros H. unfold rtv_check, preferencesTs, check_shape.
  rewrite !H; [done | | | | |]; unfold recognized; set_solver.
Qed.

(** X2. The schema looks at the five recognized keys only: adding, changing
    or removing any other key of a map changes nothing of its verdict, the
    message included. *)
Theorem X2_schema_ignores_other_keys (raw : gmap string value) key v :
  key ∉ recognized →
  rtv_check (VObject (<[key := v]> raw)) = rtv_check (VObject raw)
  ∧ rtv_check (VObject (delete key raw)) = rtv_check (VObject raw).
Proof.
  intros Hkey. split; apply rtv_check_ext; intros name Hname;
    assert (key ≠ name) as Hne by (by intros ->); unfold prop.
  - by rewrite lookup_insert_ne.
  - by rewrite lookup_delete_ne.
Qed.

Lemma X2_schema_ignores_other_keys_witness :
  rtv_check (VObject with_theme) = rtv_check (VObject scenario_B_full).
Proof.
  refine (proj1 (X2_schema_ignores_other_keys scenario_B_full "theme"
                   (VString "dark") _)).
  intros Hin. unfold recognized in Hin. not_in_literals Hin.
Defined.

(** X3. A map that lacks one of the five recognized keys is rejected:
    [fromStore] logs one diagnostic, returns normally and leaves the world
    otherwise as it was. *)
Theorem X3_missing_key_is_rejected this (raw : gmap string value) key w :
  key ∈ recognized →
  raw !! key = None →
  ∃ message,
    rtv_check (VObject raw) = RtvError message
    ∧ fromStore this (VObject raw) w
      = (Normal tt,
         with_trace (trace w ++ [LogError "PreferencesStore.fromStore()"
           ("Invalid preferences found, error=" +:+ dquote +:+ message +:+ dquote)]) w).
Proof.
  intros Hkey Hnone.
  destruct (rtv_check (VObject raw)) as [|message] eqn:Hcheck.
  - apply rtv_check_conformant in Hcheck.
    destruct (conformant_recognized raw key Hcheck Hkey) as [v Hv]. congruence.
  - exists message. split; [done|]. by apply fromStore_invalid.
Qed.

Lemma X3_missing_key_is_rejected_witness :
  ∃ message,
    rtv_check (VObject scenario_B) = RtvError message
    ∧ fromStore prefStore (VObject scenario_B) loaded_store
      = (Normal tt,
         with_trace (trace loaded_store ++ [LogError "PreferencesStore.fromStore()"
           ("Invalid preferences found, error=" +:+ dquote +:+ message +:+ dquote)])
           loaded_store).
Proof.
  refine (X3_missing_key_is_rejected prefStore scenario_B "username" loaded_store _ _).
  - unfold recognized. set_solver.
  - vm_compute. reflexivity.
Defined.



(** ** Loading and serializing together *)

(** What [toJSON] returns, for every key. *)
Lemma toJSON_result this w :
  this < length (heap w) →
  ∃ l snap w',
    toJSON this w = (Normal l, w')
    ∧ heap w' !! l = Some snap
    ∧ (∀ key, snap !! key
              = if decide (key ∈ recognized) then Some (read this key w) else None)
    ∧ heap w' !! this = heap w !! this.
Proof.
  intros Hlt. rewrite toJSON_run by done.
  set (D := defaults_object (defaultSavePath w)).
  set (snap := assign_all (keys_of D) (λ k, read this k w) ∅).
  exists (length (heap w) + 2), snap, (with_heap (heap w ++ [D; snap; snap]) w).
  split; [done|]. split; [|split].
  - simpl. rewrite lookup_app_r by lia.
    by replace (length (heap w) + 2 - length (heap w)) with 2 by lia.
  - intros key. unfold snap. rewrite lookup_assign_all.
    destruct (decide (key ∈ keys_of D)) as [Hk|Hk].
    + rewrite decide_True; [done | by apply (keys_defaults_object (defaultSavePath w))].
    + rewrite decide_False; [done|]. intros Hin. apply Hk.
      by apply keys_defaults_object.
  - simpl. by rewrite lookup_app_l.
Qed.

Lemma prop_loaded_recognized (raw o : gmap string value) name :
  conformant raw = true → name ∈ recognized → prop (raw ∪ o) name = prop raw name.
Proof.
  intros Hc Hname. destruct (conformant_recognized raw name Hc Hname) as [v Hv].
  unfold prop. by rewrite (lookup_union_Some_l _ _ _ _ Hv), Hv.
Qed.

(** X5. After a successful [fromStore(raw)], [toJSON()] returns an object
    that holds, for each of the five recognized keys, the value [raw] has
    for it, and no other key: the keys of [raw] outside the five are loaded
    on the instance but never serialized. *)
Theorem X5_snapshot_after_load this (raw o : gmap string value) w :
  heap w !! this = Some o →
  rtv_check (VObject raw) = RtvSuccess →
  ∃ l snap w2,
    toJSON this (fromStore this (VObject raw) w).2 = (Normal l, w2)
    ∧ heap w2 !! l = Some snap
    ∧ (∀ key, key ∈ recognized → snap !! key = raw !! key)
    ∧ (∀ key, key ∉ recognized → snap !! key = None).
Proof.
  intros Ho Hv.
  pose proof (fromStore_valid_obj this raw o w Ho Hv) as Ho1.
  pose proof (lookup_lt_Some _ _ _ Ho1) as Hlt1.
  destruct (toJSON_result this _ Hlt1) as (l & snap & w2 & Hrun & Hl & Hsnap & _).
  exists l, snap, w2. split; [done|]. split; [done|]. split.
  - intros key Hk. rewrite Hsnap, decide_True by done.
    rewrite (read_loaded _ _ _ _ _ Ho Hv).
    apply rtv_check_conformant in Hv.
    destruct (conformant_recognized raw key Hv Hk) as [v Hkey].
    unfold prop. by rewrite (lookup_union_Some_l _ _ _ _ Hkey), Hkey.
  - intros key Hk. by rewrite Hsnap, decide_False.
Qed.

Lemma X5_snapshot_after_load_witness :
  ∃ l snap w2,
    toJSON prefStore (fromStore prefStore (VObject with_theme) loaded_store).2
    = (Normal l, w2)
    ∧ heap w2 !! l = Some snap
    ∧ snap !! "cloudUrl" = Some (VString "https://mcc.example.com")
    ∧ snap !! "theme" = None.
Proof.
  assert (heap loaded_store !! prefStore = Some (obj_at prefStore loaded_store))
    as Ho by (vm_compute; reflexivity).
  assert (rtv_check (VObject with_theme) = RtvSuccess) as Hv
    by (vm_compute; reflexivity).
  destruct (X5_snapshot_after_load prefStore with_theme _ loaded_store Ho Hv)
    as (l & snap & w2 & Hrun & Hl & Hin & Hout).
  exists l, snap, w2. split; [exact Hrun|]. split; [exact Hl|]. split.
  - refine (eq_trans (Hin "cloudUrl" _) _); [|reflexivity].
    unfold recognized. by left.
  - apply Hout. intros H. unfold recognized in H. not_in_literals H.
Defined.

(** X6. What the store serializes after a successful load is accepted by
    its own schema: the object [toJSON()] returns then passes [rtv.check]. *)
Theorem X6_snapshot_after_load_is_valid this (raw o : gmap string value) w :
  heap w !! this = Some o →
  rtv_check (VObject raw) = RtvSuccess →
  ∃ l snap w2,
    toJSON this (fromStore this (VObject raw) w).2 = (Normal l, w2)
    ∧ heap w2 !! l = Some snap
    ∧ rtv_check (VObject snap) = RtvSuccess.
Proof.
  intros Ho Hv.
  pose proof (fromStore_valid_obj this raw o w Ho Hv) as Ho1.
  pose proof (lookup_lt_Some _ _ _ Ho1) as Hlt1.
  destruct (toJSON_result this _ Hlt1) as (l & snap & w2 & Hrun & Hl & Hsnap & _).
  exists l, snap, w2. split; [done|]. split; [done|].
  rewrite <- Hv. apply rtv_check_ext. intros name Hname.
  unfold prop at 1. rewrite Hsnap, decide_True by done. simpl.
  rewrite (read_loaded _ _ _ _ _ Ho Hv).
  apply prop_loaded_recognized; [|done]. by apply rtv_check_conformant.
Qed.

Lemma X6_snapshot_after_load_is_valid_witness :
  ∃ l snap w2,
    toJSON prefStore (fromStore prefStore (VObject with_theme) loaded_store).2
    = (Normal l, w2)
    ∧ heap w2 !! l = Some snap
    ∧ rtv_check (VObject snap) = RtvSuccess.
Proof.
  refine (X6_snapshot_after_load_is_valid prefStore with_theme
            (obj_at prefStore loaded_store) loaded_store _ _);
    vm_compute; reflexivity.
Defined.

(** X7. Serialize, then load: when the object [toJSON()] returns passes the
    schema, loading it back with [fromStore] leaves every property of the
    instance as it was. *)
Theorem X7_toJSON_then_fromStore_restores this w l (snap : gmap string value) w1 :
  store_at this w →
  toJSON this w = (Normal l, w1) →
  heap w1 !! l = Some snap →
  rtv_check (VObject snap) = RtvSuccess →
  heap (fromStore this (VObject snap) w1).2 !! this = heap w !! this.
Proof.
  intros Hs Hrun Hl Hv. pose proof (store_at_lt _ _ Hs) as Hlt.
  destruct Hs as (o & Ho & Hkeys).
  destruct (toJSON_result this w Hlt) as (l' & snap' & w1' & Hrun' & Hl' & Hsnap & Hthis).
  rewrite Hrun in Hrun'. injection Hrun' as <- <-.
  rewrite Hl in Hl'. injection Hl' as <-.
  rewrite Ho in Hthis.
  rewrite (fromStore_valid_obj _ _ _ _ Hthis Hv), Ho. f_equal.
  apply map_eq. intros key. destruct (decide (key ∈ recognized)) as [Hk|Hk].
  - destruct (Hkeys key Hk) as [v Hkey].
    rewrite (lookup_union_Some_l _ _ _ (read this key w)).
    + unfold read, obj_at, prop. rewrite Ho. simpl. by rewrite Hkey.
    + by rewrite Hsnap, decide_True.
  - rewrite lookup_union_r; [done|]. by rewrite Hsnap, decide_False.
Qed.

Lemma X7_toJSON_then_fromStore_restores_witness :
  heap (fromStore prefStore (VObject (defaults_object VNull))
          (toJSON prefStore loaded_store).2).2 !! prefStore
  = heap loaded_store !! prefStore.
Proof.
  assert (store_at prefStore loaded_store) as Hs.
  { apply (exec_store_at prefStore _ fresh_store), (construct_store_at ∅ boot). }
  refine (X7_toJSON_then_fromStore_restores prefStore loaded_store 4
            (defaults_object VNull) (toJSON prefStore loaded_store).2 Hs _ _ _);
    vm_compute; reflexivity.
Defined.

(** X8. Loading the same accepted map twice leaves the heap as loading it
    once does. *)
Theorem X8_fromStore_twice_is_once this (raw : gmap string value) w :
  rtv_check (VObject raw) = RtvSuccess →
  heap (fromStore this (VObject raw) (fromStore this (VObject raw) w).2).2
  = heap (fromStore this (VObject raw) w).2.
Proof.
  intros Hv. rewrite !fromStore_valid_heap by done.
  rewrite list_alter_alter_eq. apply list_alter_ext; [|done].
  intros o _. simpl. apply map_eq. intros key.
  destruct (raw !! key) as [v|] eqn:Hkey.
  - by rewrite !(lookup_union_Some_l _ _ _ _ Hkey).
  - by rewrite !lookup_union_r.
Qed.

Lemma X8_fromStore_twice_is_once_witness :
  heap (fromStore prefStore (VObject scenario_B_full)
          (fromStore prefStore (VObject scenario_B_full) loaded_store).2).2
  = heap (fromStore prefStore (VObject scenario_B_full) loaded_store).2.
Proof.
  refine (X8_fromStore_twice_is_once prefStore scenario_B_full loaded_store _).
  reflexivity.
Defined.

(** ** Reset *)


Lemma reset_obj this w (o : gmap string value) :
  heap w !! this = Some o →
  heap (reset this w).2 !! this
  = Some (assign_all (keys_of o) (prop (defaults_object (defaultSavePath w))) o).
Proof.
  intros Ho. rewrite (reset_run _ _ _ Ho). simpl.
  pose proof (lookup_lt_Some _ _ _ Ho) as Hlt.
  rewrite lookup_app_l by by rewrite length_insert.
  by rewrite list_lookup_insert_eq.
Qed.



Lemma reset_trace this w (o : gmap string value) :
  heap w !! this = Some o → trace (reset this w).2 = trace w.
Proof. intros Ho. by rewrite (reset_run _ _ _ Ho). Qed.





(** X11. A second [reset()] right after the first leaves the instance as the
    first left it. *)
Theorem X11_reset_twice_is_once this w (o : gmap string value) :
  heap w !! this = Some o →
  heap (reset this (reset this w).2).2 !! this = heap (reset this w).2 !! this.
Proof.
  intros Ho. pose proof (reset_obj _ _ _ Ho) as Hobj.
  rewrite (reset_obj _ _ _ Hobj), Hobj. f_equal.
  assert (defaultSavePath (reset this w).2 = defaultSavePath w) as ->
    by by rewrite (reset_run _ _ _ Ho).
  set (D := defaults_object (defaultSavePath w)).
  apply map_eq. intros key. rewrite !lookup_assign_all.
  destruct (decide (key ∈ keys_of o)) as [Hin|Hnin].
  - by case_decide.
  - rewrite decide_False; [done|].
    rewrite elem_of_keys_of, lookup_assign_all, decide_False by done.
    by rewrite <- elem_of_keys_of.
Qed.

Lemma X11_reset_twice_is_once_witness :
  heap (reset prefStore (reset prefStore observed_store).2).2 !! prefStore
  = heap (reset prefStore observed_store).2 !! prefStore.
Proof.
  refine (X11_reset_twice_is_once prefStore observed_store
            (obj_at prefStore observed_store) _).
  reflexivity.
Defined.

(** ** Removing handlers *)

Lemma Array_findIndex_absent (h : fn) (hs : list fn) :
  h ∉ hs → Array_findIndex (same_function h) (VFunction <$> hs) = (-1)%Z.
Proof.
  induction hs as [|a hs IH]; [done|]. intros Hn.
  apply not_elem_of_cons in Hn as [Hne Hn].
  cbn [fmap list_fmap Array_findIndex same_function].
  rewrite bool_decide_false by done. change (list_fmap _ _ VFunction hs) with (VFunction <$> hs).
  by rewrite IH.
Qed.

Lemma Array_findIndex_first (h : fn) (l1 l2 : list fn) :
  h ∉ l1 →
  Array_findIndex (same_function h) (VFunction <$> (l1 ++ h :: l2))
  = Z.of_nat (length l1).
Proof.
  induction l1 as [|a l1 IH]; intros Hn.
  - cbn [app fmap list_fmap Array_findIndex same_function].
    by rewrite bool_decide_true.
  - apply not_elem_of_cons in Hn as [Hne Hn].
    cbn [app fmap list_fmap Array_findIndex same_function].
    rewrite bool_decide_false by done.
    change (list_fmap _ _ VFunction (l1 ++ h :: l2)) with (VFunction <$> (l1 ++ h :: l2)).
    rewrite IH by done. cbn [length].
    destruct (Z.ltb_spec (Z.of_nat (length l1)) 0); lia.
Qed.


Lemma removeUpdateHandler_absent this w (hs : list fn) (h : fn) :
  read this "updateHandlers" w = VArray (VFunction <$> hs) →
  h ∉ hs →
  removeUpdateHandler this h w = (Normal tt, w).
Proof.
  intros Hr Hn. rewrite (removeUpdateHandler_run _ _ _ _ Hr).
  by rewrite Array_findIndex_absent.
Qed.

(** X12. Removing a function that is not in the registry does nothing:
    [removeUpdateHandler] returns normally and the world is as before. *)
Theorem X12_remove_unregistered_is_noop this w (hs : list fn) (h : fn) :
  read this "updateHandlers" w = VArray (VFunction <$> hs) →
  h ∉ hs →
  removeUpdateHandler this h w = (Normal tt, w).
Proof. apply removeUpdateHandler_absent. Qed.

Lemma X12_remove_unregistered_is_noop_witness :
  removeUpdateHandler prefStore 3 observed_store = (Normal tt, observed_store).
Proof.
  refine (X12_remove_unregistered_is_noop prefStore observed_store [onUpdate] 3 _ _).
  - reflexivity.
  - intros H. apply list_elem_of_singleton in H. discriminate H.
Defined.

Lemma removeUpdateHandler_first this w (l1 l2 : list fn) (h : fn) :
  read this "updateHandlers" w = VArray (VFunction <$> (l1 ++ h :: l2)) →
  h ∉ l1 →
  removeUpdateHandler this h w
  = (Normal tt,
     with_heap (alter (<["updateHandlers" := VArray (VFunction <$> (l1 ++ l2))]>)
                  this (heap w)) w).
Proof.
  intros Hr Hn. rewrite (removeUpdateHandler_run _ _ _ _ Hr).
  rewrite Array_findIndex_first by done.
  destruct (Z.geb_spec (Z.of_nat (length l1)) 0) as [_|Hneg]; [|lia].
  rewrite Nat2Z.id, !fmap_app, fmap_cons.
  replace (length l1) with (length (VFunction <$> l1)) by apply length_fmap.
  by rewrite delete_middle.
Qed.



Lemma registry_own_property this w (xs : list value) :
  read this "updateHandlers" w = VArray xs →
  ∃ o, heap w !! this = Some o ∧ o !! "updateHandlers" = Some (VArray xs).
Proof.
  unfold read, obj_at, prop. intros Hr.
  destruct (heap w !! this) as [o|]; simpl in Hr; [|done].
  exists o. split; [done|].
  by destruct (o !! "updateHandlers") as [v|]; simpl in Hr; [rewrite Hr|].
Qed.

(** X14. Register, then remove: for a function that was not registered,
    [addUpdateHandler] followed by [removeUpdateHandler] gives back the world
    there was before the two calls. *)
Theorem X14_add_then_remove_restores this w (hs : list fn) (h : fn) :
  read this "updateHandlers" w = VArray (VFunction <$> hs) →
  h ∉ hs →
  removeUpdateHandler this h (exec this (AddUpdateHandler h) w) = (Normal tt, w).
Proof.
  intros Hr Hn. destruct (registry_own_property _ _ _ Hr) as (o & Ho & Huh).
  pose proof (lookup_lt_Some _ _ _ Ho) as Hlt.
  rewrite (exec_add _ _ _ _ Hr), decide_False by done.
  rewrite (removeUpdateHandler_first _ _ hs [] h).
  - f_equal. unfold with_heap. simpl. rewrite list_alter_alter_eq, app_nil_r.
    rewrite (alter_as_insert _ _ _ _ Ho). simpl.
    rewrite insert_insert_eq, (insert_id o) by done.
    rewrite list_insert_id by done. by destruct w.
  - by apply read_set.
  - done.
Qed.

Lemma X14_add_then_remove_restores_witness :
  removeUpdateHandler prefStore 3 (exec prefStore (AddUpdateHandler 3) observed_store)
  = (Normal tt, observed_store).
Proof.
  refine (X14_add_then_remove_restores prefStore observed_store [onUpdate] 3 _ _).
  - reflexivity.
  - intros H. apply list_elem_of_singleton in H. discriminate H.
Defined.

(** ** Invariants over sequences of calls *)

Lemma NoDup_remove_middle (l1 l2 : list fn) (h : fn) :
  NoDup (l1 ++ h :: l2) → NoDup (l1 ++ l2) ∧ h ∉ l1.
Proof.
  intros Hnd. apply NoDup_app in Hnd as (Hl1 & Hdisj & Hl2).
  apply NoDup_cons in Hl2 as [Hh Hl2]. split.
  - apply NoDup_app. split; [done|]. split; [|done].
    intros x Hx Hx'. apply (Hdisj x Hx). by right.
  - intros Hin. apply (Hdisj h Hin). by left.
Qed.

(** One call that is neither [reset] nor a load of a map with the key
    [updateHandlers] keeps the registry an array of distinct functions. *)
Lemma exec_keeps_registry this c w :
  this < length (heap w) →
  distinct_functions (read this "updateHandlers" w) →
  keeps_registry c = true →
  distinct_functions (read this "updateHandlers" (exec this c w)).
Proof.
  intros Hlt (hs & Hr & Hnd) Hc. destruct c as [|store| |h|h|]; simpl in *.
  - done.
  - destruct (rtv_check store) as [|message] eqn:Hcheck.
    + destruct store as [| | | | | | |raw]; try discriminate Hcheck.
      apply bool_decide_eq_true in Hc.
      rewrite (fromStore_notifies this raw hs w Hlt Hr Hcheck Hc).
      exists hs. split; [|done]. rewrite <- Hr.
      destruct (registry_own_property _ _ _ Hr) as (o & Ho & Huh).
      unfold read, obj_at, prop. simpl. rewrite list_lookup_alter_eq, Ho. simpl.
      by rewrite lookup_union_r.
    + rewrite (fromStore_invalid _ _ _ _ Hcheck). by exists hs.
  - rewrite toJSON_run by done. simpl. exists hs. split; [|done].
    rewrite <- Hr. by apply read_alloc.
  - destruct (registry_add this h hs w Hlt Hr) as (Hr' & _ & _). simpl in Hr'.
    eexists. split; [exact Hr'|].
    destruct (decide (h ∈ hs)) as [|Hn]; [done|].
    apply NoDup_app. split; [done|]. split; [|apply NoDup_singleton].
    intros x Hx Hx'. apply list_elem_of_singleton in Hx' as ->. done.
  - destruct (decide (h ∈ hs)) as [Hin|Hn].
    + apply list_elem_of_split in Hin as (l1 & l2 & ->).
      apply NoDup_remove_middle in Hnd as [Hnd Hl1].
      rewrite (removeUpdateHandler_first _ _ _ _ _ Hr Hl1). simpl.
      exists (l1 ++ l2). split; [by apply read_set | done].
    + rewrite (removeUpdateHandler_absent this w hs h Hr Hn). by exists hs.
  - exists hs. split; [|done]. rewrite <- Hr. by apply (read_alloc _ _ [_]).
Qed.

(** X15. Whatever is called on the store, short of [reset()] and of loading
    a map that has the key [updateHandlers], the registry stays an array of
    distinct functions. *)
Theorem X15_registry_stays_distinct_functions this w (cs : list method) :
  this < length (heap w) →
  distinct_functions (read this "updateHandlers" w) →
  Forall (λ c, keeps_registry c = true) cs →
  distinct_functions (read this "updateHandlers" (run this cs w)).
Proof.
  revert w. induction cs as [|c cs IH]; intros w Hlt Hd Hcs; [done|].
  apply Forall_cons in Hcs as [Hc Hcs]. simpl. apply IH; [|by apply exec_keeps_registry|done].
  pose proof (exec_length this c w Hlt). lia.
Qed.

Lemma X15_registry_stays_distinct_functions_witness :
  distinct_functions
    (read prefStore "updateHandlers"
       (run prefStore
          [AddUpdateHandler 3; FromStore (VObject scenario_B_full); ToJSON;
           AddUpdateHandler 3; RemoveUpdateHandler onUpdate; FromStore VNull]
          observed_store)).
Proof.
  refine (X15_registry_stays_distinct_functions prefStore observed_store _ _ _ _).
  - vm_compute. lia.
  - exists [onUpdate]. split; [reflexivity | apply NoDup_singleton].
  - repeat (apply Forall_cons; split; [reflexivity|]). apply Forall_nil_2.
Defined.




(** ** The trace *)

Lemma exec_quiet this c w :
  this < length (heap w) → is_load c = false → trace (exec this c w) = trace w.
Proof.
  intros Hlt Hc. destruct (lookup_lt_is_Some_2 _ _ Hlt) as [o Ho].
  destruct c as [|store| |h|h|]; simpl in *; try done.
  - by apply (reset_trace _ _ o).
  - by rewrite toJSON_run.
  - unfold addUpdateHandler. erewrite bind_normal by reflexivity.
    destruct (read this "updateHandlers" w); try done. by destruct (negb _).
  - unfold removeUpdateHandler. erewrite bind_normal by reflexivity.
    destruct (read this "updateHandlers" w); try done. by destruct (_ >=? _)%Z.
Qed.

(** X17. Only [fromStore] writes to the logger or calls a handler: a
    sequence of calls without a load leaves the trace as it was. *)
Theorem X17_only_loads_extend_the_trace this w (cs : list method) :
  this < length (heap w) →
  Forall (λ c, is_load c = false) cs →
  trace (run this cs w) = trace w.
Proof.
  revert w. induction cs as [|c cs IH]; intros w Hlt Hcs; [done|].
  apply Forall_cons in Hcs as [Hc Hcs]. simpl.
  pose proof (exec_length this c w Hlt) as Hlen.
  rewrite IH by (done || lia). by apply exec_quiet.
Qed.

Lemma X17_only_loads_extend_the_trace_witness :
  trace (run prefStore [AddUpdateHandler 3; Reset; ToJSON; RemoveUpdateHandler 3;
                        GetDefaults] observed_store)
  = trace observed_store.
Proof.
  refine (X17_only_loads_extend_the_trace prefStore observed_store _ _ _).
  - vm_compute. lia.
  - repeat (apply Forall_cons; split; [reflexivity|]). apply Forall_nil_2.
Defined.

Lemma with_trace_nil w : with_trace (trace w ++ []) w = w.
Proof. unfold with_trace. rewrite app_nil_r. by destruct w. Qed.

Lemma forEach_call_invokes (xs : list value) w :
  ∃ c t, forEach xs call w = (c, with_trace (trace w ++ t) w)
         ∧ ∀ e, e ∈ t → ∃ h, e = Invoke h.
Proof.
  revert w. induction xs as [|x xs IH]; intros w; simpl.
  - exists (Normal tt), []. split; [|by intros e He%elem_of_nil].
    unfold ret, with_trace. rewrite app_nil_r. by destruct w.
  - unfold bind. destruct x; simpl;
      try (eexists (Throw _), []; split; [|by intros e He%elem_of_nil];
           unfold throw, with_trace; rewrite app_nil_r; by destruct w).
    destruct (IH (with_trace (trace w ++ [Invoke f]) w)) as (c & t & -> & Ht).
    exists c, (Invoke f :: t). split.
    + unfold with_trace. simpl. by rewrite <- app_assoc.
    + intros e He. apply elem_of_cons in He as [->|He]; [by eexists | by apply Ht].
Qed.

Lemma Array_forEach_call_invokes (v : value) w :
  ∃ c t, Array_forEach v call w = (c, with_trace (trace w ++ t) w)
         ∧ ∀ e, e ∈ t → ∃ h, e = Invoke h.
Proof.
  destruct v; simpl; try apply forEach_call_invokes;
    eexists (Throw _), []; (split; [|by intros e He%elem_of_nil]);
    unfold throw; by rewrite with_trace_nil.
Qed.

(** X18. A load never does both: rejected, [fromStore] writes one
    diagnostic, calls no handler, changes no object and returns normally;
    accepted, it writes nothing to the logger, and what it adds to the trace
    are calls of handlers only. *)
Theorem X18_load_logs_or_notifies this (store : value) w :
  ∃ t,
    trace (fromStore this store w).2 = trace w ++ t
    ∧ ((rtv_check store = RtvSuccess ∧ ∀ e, e ∈ t → ∃ h, e = Invoke h)
       ∨ (∃ message,
            rtv_check store = RtvError message
            ∧ t = [LogError "PreferencesStore.fromStore()"
                     ("Invalid preferences found, error=" +:+ dquote +:+ message
                      +:+ dquote)]
            ∧ (fromStore this store w).1 = Normal tt
            ∧ heap (fromStore this store w).2 = heap w)).
Proof.
  destruct (rtv_check store) as [|message] eqn:Hcheck.
  - destruct store as [| | | | | | |raw]; try discriminate Hcheck.
    rewrite fromStore_valid by done.
    edestruct Array_forEach_call_invokes as (c & t & -> & Ht).
    exists t. split; [reflexivity|]. left. by split.
  - rewrite (fromStore_invalid _ _ _ _ Hcheck). simpl.
    eexists. split; [reflexivity|]. right. by exists message.
Qed.

(** ** Construction *)

